(** * One Piece Hub API: a shallow embedding of [main.py] and [schemas.py]

    The request handlers of [main.py] and the [Episode] schema of
    [schemas.py] are embedded as executable functions.  Python dicts are
    finite maps from field names to values, exceptions are an explicit
    result type, and the document store behind the global handle [db] is a
    record threaded through the handlers that write to it. *)

From Stdlib Require Import ZArith NArith String Ascii List Bool Lia DecimalString.
From stdpp Require Import gmap strings list.

Set Warnings "-register-all".
Local Open Scope string_scope.

(** ** Strings *)

(** [str.lower] restricted to what the development needs: ASCII letters. *)
Definition lower_ascii (c : ascii) : ascii :=
  let n := N_of_ascii c in
  if ((65 <=? n) && (n <=? 90))%N then ascii_of_N (n + 32) else c.

Fixpoint lower (s : string) : string :=
  match s with
  | EmptyString => EmptyString
  | String c r => String (lower_ascii c) (lower r)
  end.

(** ** [bson.ObjectId]

    [ObjectId(s)] on a string of 24 characters keeps [bytes.fromhex(s)]
    and raises [InvalidId] when that fails or when the length is not 24;
    [bytes.fromhex] reads two hexadecimal digits per byte and skips ASCII
    whitespace before a byte, so fewer than twelve bytes can result;
    [str(oid)] is the lower-case hexadecimal form of the bytes. *)
Module ObjectId.

Record t : Type := mk { binary : list N }.

Definition hexval (c : ascii) : option N :=
  let n := N_of_ascii c in
  if ((48 <=? n) && (n <=? 57))%N then Some (n - 48)%N
  else if ((97 <=? n) && (n <=? 102))%N then Some (n - 87)%N
  else if ((65 <=? n) && (n <=? 70))%N then Some (n - 55)%N
  else None.

Definition is_hex (c : ascii) : bool :=
  match hexval c with Some _ => true | None => false end.

(** ASCII whitespace: space, and tab to carriage return. *)
Definition is_space (c : ascii) : bool :=
  let n := N_of_ascii c in
  (n =? 32)%N || ((9 <=? n) && (n <=? 13))%N.

(** [bytes.fromhex]: whitespace is skipped where a byte may start; the
    two digits of a byte stand next to each other. *)
Fixpoint fromhex (s : string) : option (list N) :=
  match s with
  | EmptyString => Some []
  | String a r =>
      if is_space a then fromhex r
      else
        match r with
        | String b r' =>
            match hexval a, hexval b, fromhex r' with
            | Some h, Some l, Some bs => Some ((16 * h + l)%N :: bs)
            | _, _, _ => None
            end
        | EmptyString => None
        end
  end.

Fixpoint strip_space (s : string) : string :=
  match s with
  | EmptyString => EmptyString
  | String c r => if is_space c then strip_space r else String c (strip_space r)
  end.

(** [ObjectId(s)]: [None] stands for the [InvalidId] exception. *)
Definition parse (s : string) : option t :=
  if (String.length s =? 24)%nat then mk <$> fromhex s else None.

Definition hexdigit (n : N) : ascii :=
  ascii_of_N (if (n <? 10)%N then 48 + n else 87 + n)%N.

(** [binascii.hexlify] *)
Fixpoint hexlify (bs : list N) : string :=
  match bs with
  | [] => EmptyString
  | b :: r => String (hexdigit (b / 16)) (String (hexdigit (b mod 16)) (hexlify r))
  end.

(** [str(oid)] *)
Definition to_str (o : t) : string := hexlify (binary o).

(** The identifier format: 24 hexadecimal digits. *)
Definition is_valid (s : string) : bool :=
  (String.length s =? 24)%nat && forallb is_hex (list_ascii_of_string s).

(** The [n]-th identifier the store hands out: the counter in twelve
    big-endian bytes. *)
Fixpoint be_bytes (k : nat) (n : N) : list N :=
  match k with
  | O => []
  | S k' => be_bytes k' (n / 256) ++ [(n mod 256)%N]
  end.

Definition fresh (n : N) : t := mk (be_bytes 12 n).

End ObjectId.

(** ** Values and documents *)

(** The values a stored document or a keyword argument can hold. *)
Inductive value : Type :=
| VNone
| VBool (b : bool)
| VInt (z : Z)
| VStr (s : string)
| VList (l : list value)
| VOid (o : ObjectId.t).

(** A Python dict with string keys. *)
Abbreviation doc := (gmap string value).

Definition oid_eqb (a b : ObjectId.t) : bool :=
  bool_decide (ObjectId.binary a = ObjectId.binary b).

(** Equality of values as MongoDB compares them: same type, same content. *)
Fixpoint value_eqb (a b : value) {struct a} : bool :=
  match a, b with
  | VNone, VNone => true
  | VBool x, VBool y => Bool.eqb x y
  | VInt x, VInt y => (x =? y)%Z
  | VStr x, VStr y => String.eqb x y
  | VOid x, VOid y => oid_eqb x y
  | VList xs, VList ys =>
      (fix go (xs ys : list value) {struct xs} : bool :=
         match xs, ys with
         | [], [] => true
         | x :: xs', y :: ys' => value_eqb x y && go xs' ys'
         | _, _ => false
         end) xs ys
  | _, _ => false
  end.

Definition string_of_Z (z : Z) : string := NilZero.string_of_int (Z.to_int z).

Fixpoint join (sep : string) (l : list string) : string :=
  match l with
  | [] => EmptyString
  | [x] => x
  | x :: r => x +:+ sep +:+ join sep r
  end.

(** [repr(v)] and [str(v)].  A string is quoted without escapes in [repr];
    that case is reached only through a list, which MongoDB refuses as an
    [_id]. *)
Fixpoint py_repr (v : value) : string :=
  match v with
  | VNone => "None"
  | VBool true => "True"
  | VBool false => "False"
  | VInt z => string_of_Z z
  | VStr s => "'" +:+ s +:+ "'"
  | VList l => "[" +:+ join ", " (map py_repr l) +:+ "]"
  | VOid o => "ObjectId('" +:+ ObjectId.to_str o +:+ "')"
  end.

Definition py_str (v : value) : string :=
  match v with
  | VStr s => s
  | VOid o => ObjectId.to_str o
  | _ => py_repr v
  end.

(** ** Exceptions *)

Inductive exn : Type :=
| HTTPException (status_code : Z) (detail : string)
| ValidationError (field msg : string)
| TypeError (msg : string)
| Exception (msg : string).

Inductive result (A : Type) : Type :=
| Ok (a : A)
| Raise (e : exn).
Arguments Ok {A} a.
Arguments Raise {A} e.

#[global] Instance result_bind : MBind result := fun A B k r =>
  match r with
  | Ok a => k a
  | Raise e => Raise e
  end.

#[global] Instance result_ret : MRet result := fun A a => Ok a.

(** A list comprehension whose body can raise: the first exception ends
    the whole comprehension. *)
Fixpoint traverse {A B} (f : A -> result B) (l : list A) : result (list B) :=
  match l with
  | [] => Ok []
  | a :: r => b ← f a; bs ← traverse f r; Ok (b :: bs)
  end.

(** The status line FastAPI answers with: 200 for a returned value, the
    exception's own code for an [HTTPException], 500 for any other
    exception that leaves the handler. *)
Definition http_status {A} (r : result A) : Z :=
  match r with
  | Ok _ => 200
  | Raise (HTTPException c _) => c
  | Raise _ => 500
  end.

(** ** [schemas.py]: the [Episode] model

    [HttpUrl_ok] is pydantic's well-formedness test for an [HttpUrl]; the
    development holds for any such test.  A field is validated against its
    declared type ([int], [str], [bool], [List[str]], [Optional[...]]) and
    its [Field] bounds.  pydantic's conversions between types and its
    rewriting of an accepted URL are left out: the properties below are
    stated on arguments of the declared types, and none rests on the form
    an accepted URL is kept in.  The exception carries the first failing
    field in declaration order. *)
Section Api.

Variable HttpUrl_ok : string -> bool.

Record Episode : Type := mkEpisode {
  number : Z;
  season : Z;
  title : string;
  synopsis : option string;
  thumbnail_url : option string;
  poster_url : option string;
  stream_url : option string;
  duration_minutes : option Z;
  tags : list string;
  is_featured : bool
}.

Definition int_field (f : string) (v : value) : result Z :=
  match v with
  | VInt z => Ok z
  | _ => Raise (ValidationError f "value is not a valid integer")
  end.

Definition str_field (f : string) (v : value) : result string :=
  match v with
  | VStr s => Ok s
  | _ => Raise (ValidationError f "str type expected")
  end.

Definition bool_field (f : string) (v : value) : result bool :=
  match v with
  | VBool b => Ok b
  | _ => Raise (ValidationError f "value could not be parsed to a boolean")
  end.

Definition url_field (f : string) (v : value) : result string :=
  s ← str_field f v;
  if HttpUrl_ok s then Ok s
  else Raise (ValidationError f "invalid or missing URL scheme").

Definition list_str_field (f : string) (v : value) : result (list string) :=
  match v with
  | VList l => traverse (str_field f) l
  | _ => Raise (ValidationError f "value is not a valid list")
  end.

(** [Field(..., ge=lo)] and [Field(..., le=hi)] *)
Definition ge (f : string) (lo : Z) (z : Z) : result Z :=
  if (lo <=? z)%Z then Ok z
  else Raise (ValidationError f "ensure this value is greater than or equal to the bound").

Definition le (f : string) (hi : Z) (z : Z) : result Z :=
  if (z <=? hi)%Z then Ok z
  else Raise (ValidationError f "ensure this value is less than or equal to the bound").

(** An [int] field with the bounds its [Field] declares. *)
Definition bounded_int (lo hi : option Z) (f : string) (v : value) : result Z :=
  z ← int_field f v;
  z ← match lo with Some b => ge f b z | None => Ok z end;
  match hi with Some b => le f b z | None => Ok z end.

(** [Field(...)]: the key must be present. *)
Definition required {A} (kw : doc) (f : string) (ty : string -> value -> result A)
  : result A :=
  match kw !! f with
  | Some v => ty f v
  | None => Raise (ValidationError f "field required")
  end.

(** [Field(default)]: the default is taken as it is when the key is absent. *)
Definition with_default {A} (kw : doc) (f : string) (dflt : A)
    (ty : string -> value -> result A) : result A :=
  match kw !! f with
  | Some v => ty f v
  | None => Ok dflt
  end.

(** [Optional[T] = Field(None)]: an absent key and [None] both give [None]. *)
Definition optional {A} (kw : doc) (f : string) (ty : string -> value -> result A)
  : result (option A) :=
  match kw !! f with
  | None | Some VNone => Ok None
  | Some v => a ← ty f v; Ok (Some a)
  end.

(** The constructor [Episode] applied to the keyword arguments [kw]; keys
    that name no field are ignored. *)
Definition Episode_validate (kw : doc) : result Episode :=
  n ← required kw "number" (bounded_int (Some 1%Z) None);
  s ← with_default kw "season" 1%Z (bounded_int (Some 1%Z) None);
  t ← required kw "title" str_field;
  sy ← optional kw "synopsis" str_field;
  th ← optional kw "thumbnail_url" url_field;
  po ← optional kw "poster_url" url_field;
  st ← optional kw "stream_url" url_field;
  du ← optional kw "duration_minutes" (bounded_int (Some 1%Z) (Some 240%Z));
  tg ← with_default kw "tags" [] list_str_field;
  fe ← with_default kw "is_featured" false bool_field;
  Ok (mkEpisode n s t sy th po st du tg fe).

Definition opt_value {A} (inj : A -> value) (o : option A) : value :=
  match o with
  | Some a => inj a
  | None => VNone
  end.

(** The constraints of the schema, on a record. *)
Definition url_opt_ok (o : option string) : bool :=
  match o with
  | Some u => HttpUrl_ok u
  | None => true
  end.

Definition Episode_ok (e : Episode) : bool :=
  (1 <=? number e)%Z && (1 <=? season e)%Z
  && url_opt_ok (thumbnail_url e) && url_opt_ok (poster_url e)
  && url_opt_ok (stream_url e)
  && match duration_minutes e with
     | Some d => (1 <=? d)%Z && (d <=? 240)%Z
     | None => true
     end.

(** ** The document store

    [db] of [database.py] is either [None] or a pymongo database.  A
    database is the documents of each of its collections in their natural
    (insertion) order, a counter for the identifiers it assigns, and
    whether listing the collection names fails. *)
Record Database : Type := mkDatabase {
  name : string;
  collections : gmap string (list doc);
  next_id : N;
  names_error : option string
}.

(** [db[c]]: the documents of collection [c], none if it does not exist. *)
Definition coll (d : Database) (c : string) : list doc :=
  default [] (collections d !! c).

(** A query condition on one field: a value to equal, or [{"$in": [...]}]. *)
Inductive condition : Type :=
| Equals (v : value)
| In_ (vs : list value).

(** MongoDB matching: the field equals the operand, or is an array with an
    element that does; an absent field behaves as null. *)
Definition holds_eq (x : option value) (v : value) : bool :=
  match x with
  | Some (VList l) => value_eqb (VList l) v || existsb (fun a => value_eqb a v) l
  | Some a => value_eqb a v
  | None => value_eqb VNone v
  end.

Definition holds (x : option value) (c : condition) : bool :=
  match c with
  | Equals v => holds_eq x v
  | In_ vs => existsb (holds_eq x) vs
  end.

(** A query dict is the conjunction of its entries. *)
Definition matches (q : gmap string condition) (d : doc) : bool :=
  forallb (fun fc => holds (d !! fc.1) fc.2) (map_to_list q).

(** [db[c].find(q)] *)
Definition find (d : Database) (c : string) (q : gmap string condition) : list doc :=
  List.filter (matches q) (coll d c).

(** [cursor.limit(n)]: pymongo takes 0 as no limit and a negative [n] as a
    limit of [abs(n)]. *)
Definition limit {A} (n : Z) (cursor : list A) : list A :=
  if (n =? 0)%Z then cursor else take (Z.abs_nat n) cursor.

(** [db[c].count_documents(q)] *)
Definition count_documents (d : Database) (c : string) (q : gmap string condition) : Z :=
  Z.of_nat (length (find d c q)).

(** [db[c].insert_one(x)]: a document without [_id] gets the next
    identifier; the result is the new store and the inserted [_id]. *)
Definition insert_one (d : Database) (c : string) (x : doc) : Database * value :=
  match x !! "_id" with
  | Some i =>
      (mkDatabase (name d) (<[c := (coll d c ++ [x])%list]> (collections d))
         (next_id d) (names_error d), i)
  | None =>
      let i := VOid (ObjectId.fresh (next_id d)) in
      (mkDatabase (name d) (<[c := (coll d c ++ [<["_id" := i]> x])%list]> (collections d))
         (N.succ (next_id d)) (names_error d), i)
  end.

(** [db[c].insert_many(xs)] *)
Fixpoint insert_many (d : Database) (c : string) (xs : list doc) : Database :=
  match xs with
  | [] => d
  | x :: r => insert_many (insert_one d c x).1 c r
  end.

(** [db.list_collection_names()] *)
Definition list_collection_names (d : Database) : result (list string) :=
  match names_error d with
  | Some msg => Raise (Exception msg)
  | None => Ok (map fst (map_to_list (collections d)))
  end.

(** Modelled from the spec: [create_document] of [database.py], which is
    not among the sources.  The spec's [insertOne(collection, document)]
    inserts one document and returns its store-assigned identifier as a
    string, and fails if no connection is configured. *)
Definition create_document (db : option Database) (c : string) (data : doc)
  : result string * option Database :=
  match db with
  | None => (Raise (Exception "Database not available"), None)
  | Some d => let '(d', i) := insert_one d c data in (Ok (py_str i), Some d')
  end.

(** ** [main.py] *)

Definition read_root : result doc :=
  Ok {[ "message" := VStr "One Piece Hub API is running" ]}.

(** *** [test_database]

    The handler builds its [response] dict by assignments inside nested
    [try] blocks.  A statement takes the dict and gives it back, changed,
    together with the exception it raised, if any: what was assigned
    before an exception stays assigned. *)
Definition stmt : Type := doc -> doc * option exn.

Definition assign (k : string) (v : value) : stmt :=
  fun r => (<[k := v]> r, None).

Definition seq (s1 s2 : stmt) : stmt :=
  fun r =>
    match s1 r with
    | (r', None) => s2 r'
    | (r', Some e) => (r', Some e)
    end.

(** [x = call; rest(x)] where the call can raise. *)
Definition call {A} (c : result A) (rest : A -> stmt) : stmt :=
  fun r =>
    match c with
    | Ok a => rest a r
    | Raise e => (r, Some e)
    end.

(** [try: body except Exception as e: handler(e)] *)
Definition try_stmt (body : stmt) (handler : exn -> stmt) : stmt :=
  fun r =>
    match body r with
    | (r', None) => (r', None)
    | (r', Some e) => handler e r'
    end.

(** [return response] at the end of a body of statements. *)
Definition returning (body : stmt) (r : doc) : result doc :=
  match body r with
  | (r', None) => Ok r'
  | (_, Some e) => Raise e
  end.

(** [str(e)] *)
Definition exn_str (e : exn) : string :=
  match e with
  | HTTPException _ detail => detail
  | ValidationError f msg => f +:+ ": " +:+ msg
  | TypeError msg => msg
  | Exception msg => msg
  end.

(** [os.getenv(k)] as a condition: set and not empty. *)
Definition getenv_truthy (env : gmap string string) (k : string) : bool :=
  match env !! k with
  | Some v => negb (String.eqb v "")
  | None => false
  end.

Definition test_database (db : option Database) (env : gmap string string)
  : result doc :=
  let response : doc :=
    list_to_map
      [ ("backend", VStr "✅ Running");
        ("database", VStr "❌ Not Available");
        ("database_url", VNone);
        ("database_name", VNone);
        ("connection_status", VStr "Not Connected");
        ("collections", VList []) ] in
  returning
    (seq
       (try_stmt
          (match db with
           | Some d =>
               seq (assign "database" (VStr "✅ Available"))
              (seq (assign "database_url" (VStr "✅ Configured"))
              (seq (assign "database_name" (VStr (name d)))
              (seq (assign "connection_status" (VStr "Connected"))
                   (try_stmt
                      (call (list_collection_names d) (fun collections =>
                       seq (assign "collections" (VList (map VStr (take 10 collections))))
                           (assign "database" (VStr "✅ Connected & Working"))))
                      (fun e =>
                         assign "database"
                           (VStr ("⚠️  Connected but Error: "
                                  +:+ substring 0 50 (exn_str e))))))))
           | None => assign "database" (VStr "⚠️  Available but not initialized")
           end)
          (fun e => assign "database" (VStr ("❌ Error: " +:+ substring 0 50 (exn_str e)))))
       (seq (assign "database_url"
               (VStr (if getenv_truthy env "DATABASE_URL" then "✅ Set" else "❌ Not Set")))
            (assign "database_name"
               (VStr (if getenv_truthy env "DATABASE_NAME" then "✅ Set" else "❌ Not Set")))))
    response.

(** *** [serialize_doc] *)
Definition serialize_doc (d : doc) : doc :=
  if (size d =? 0)%nat then d
  else
    match d !! "_id" with
    | Some i => <["id" := VStr (py_str i)]> (delete "_id" d)
    | None => d
    end.

(** *** [seed_demo] *)
Definition demo : list doc :=
  [ list_to_map
      [ ("number", VInt 1); ("season", VInt 1);
        ("title", VStr "I'm Luffy! The Man Who's Gonna Be King of the Pirates!");
        ("synopsis", VStr "Luffy sets out to sea and meets Coby.");
        ("thumbnail_url", VStr "https://images.unsplash.com/photo-1545972152-7051e70f47c9?q=80&w=1200&auto=format&fit=crop");
        ("poster_url", VStr "https://images.unsplash.com/photo-1520975922215-2305b8d0b7b6?q=80&w=1600&auto=format&fit=crop");
        ("stream_url", VStr "https://www.w3schools.com/html/mov_bbb.mp4");
        ("duration_minutes", VInt 24);
        ("tags", VList [VStr "luffy"; VStr "east blue"]);
        ("is_featured", VBool true) ];
    list_to_map
      [ ("number", VInt 2); ("season", VInt 1);
        ("title", VStr "Enter the Great Swordsman! Pirate Hunter Roronoa Zoro!");
        ("synopsis", VStr "Luffy seeks out the famed swordsman.");
        ("thumbnail_url", VStr "https://images.unsplash.com/photo-1612036782180-6f0b6a9a8d2e?q=80&w=1200&auto=format&fit=crop");
        ("poster_url", VStr "https://images.unsplash.com/photo-1522199710521-72d69614c702?q=80&w=1600&auto=format&fit=crop");
        ("stream_url", VStr "https://www.w3schools.com/html/mov_bbb.mp4");
        ("duration_minutes", VInt 24);
        ("tags", VList [VStr "zoro"; VStr "east blue"]);
        ("is_featured", VBool true) ];
    list_to_map
      [ ("number", VInt 3); ("season", VInt 1);
        ("title", VStr "Morgan versus Luffy! Who's the Mysterious Beautiful Young Girl?");
        ("synopsis", VStr "The Straw Hats face Captain Morgan.");
        ("thumbnail_url", VStr "https://images.unsplash.com/photo-1606112219348-204d7d8b94ee?q=80&w=1200&auto=format&fit=crop");
        ("poster_url", VStr "https://images.unsplash.com/photo-1520975922215-2305b8d0b7b6?q=80&w=1600&auto=format&fit=crop");
        ("stream_url", VStr "https://www.w3schools.com/html/mov_bbb.mp4");
        ("duration_minutes", VInt 24);
        ("tags", VList [VStr "nami"; VStr "east blue"]);
        ("is_featured", VBool false) ] ].

Definition not_configured {A} : result A :=
  Raise (HTTPException 500 "Database not configured").

(** A handler that writes gives back the store handle as it leaves it. *)
Definition seed_demo (db : option Database) : result doc * option Database :=
  match db with
  | None => (not_configured, db)
  | Some d =>
      let count := count_documents d "episode" ∅ in
      if (count >? 0)%Z then
        (Ok (list_to_map [ ("seeded", VBool false);
                           ("message", VStr "Episodes already exist") ]), db)
      else
        (Ok (list_to_map [ ("seeded", VBool true);
                           ("count", VInt (Z.of_nat (length demo))) ]),
         Some (insert_many d "episode" demo))
  end.

(** *** [list_episodes] *)

(** The [query] dict built from the two optional parameters; [if tag:]
    holds for a string that is present and not empty. *)
Definition episode_query (tag : option string) (featured : option bool)
  : gmap string condition :=
  let query : gmap string condition := ∅ in
  let query :=
    match tag with
    | Some t => if String.eqb t "" then query else <["tags" := In_ [VStr t]]> query
    | None => query
    end in
  match featured with
  | Some b => <["is_featured" := Equals (VBool b)]> query
  | None => query
  end.

(** The keyword arguments handed to [Episode]: every item but [id]. *)
Definition without_id (d : doc) : doc :=
  filter (fun kv => kv.1 ≠ "id") d.

(** [async for _ in xs: pass] with [xs] a list: a list has no [__aiter__],
    so the statement raises before its body runs. *)
Definition async_for_list {A} (xs : list A) : result unit :=
  Raise (TypeError "'async for' requires an object with __aiter__ method, got list").

Definition list_episodes (db : option Database) (tag : option string)
    (featured : option bool) (lim : Z) : result (list Episode) :=
  match db with
  | None => not_configured
  | Some d =>
      let cursor := limit lim (find d "episode" (episode_query tag featured)) in
      async_for_list (@nil unit);;
      let items := map serialize_doc cursor in
      traverse (fun x => Episode_validate (without_id x)) items
  end.

Definition list_episodes_raw (db : option Database) (lim : Z) : result (list doc) :=
  match db with
  | None => not_configured
  | Some d => Ok (map serialize_doc (limit lim (find d "episode" ∅)))
  end.

(** *** Collections *)
Definition list_collections (db : option Database) (lim : Z) : result (list doc) :=
  match db with
  | None => not_configured
  | Some d => Ok (map serialize_doc (limit lim (find d "collection" ∅)))
  end.

Record CreateCollectionRequest : Type := mkCreateCollectionRequest {
  cc_title : string;
  cc_description : option string;
  cc_episode_ids : list string;
  cc_cover_url : option string
}.

(** [payload.dict()] *)
Definition CreateCollectionRequest_dict (p : CreateCollectionRequest) : doc :=
  list_to_map
    [ ("title", VStr (cc_title p));
      ("description", opt_value VStr (cc_description p));
      ("episode_ids", VList (map VStr (cc_episode_ids p)));
      ("cover_url", opt_value VStr (cc_cover_url p)) ].

(** The loop over the supplied ids: [str(ObjectId(eid))] is appended, and
    an [eid] on which [ObjectId] raises is passed over. *)
Fixpoint collect_valid_ids (eids : list string) (valid_ids : list string) : list string :=
  match eids with
  | [] => valid_ids
  | eid :: r =>
      match ObjectId.parse eid with
      | Some o => collect_valid_ids r (valid_ids ++ [ObjectId.to_str o])%list
      | None => collect_valid_ids r valid_ids
      end
  end.

Definition create_collection (db : option Database) (payload : CreateCollectionRequest)
  : result doc * option Database :=
  match db with
  | None => (not_configured, db)
  | Some _ =>
      let data := CreateCollectionRequest_dict payload in
      let valid_ids := collect_valid_ids (cc_episode_ids payload) [] in
      let data := <["episode_ids" := VList (map VStr valid_ids)]> data in
      let '(inserted_id, db') := create_document db "collection" data in
      (i ← inserted_id; Ok {[ "id" := VStr i ]}, db')
  end.

(** ** Sample data

    A URL test and a store to run the handlers on. *)
Definition sample_url_ok (s : string) : bool :=
  String.prefix "http://" s || String.prefix "https://" s.

Definition empty_db : Database := mkDatabase "onepiece" ∅ 0 None.

Definition romance_dawn : doc :=
  list_to_map [ ("number", VInt 1); ("title", VStr "Romance Dawn") ].

(** The store after one POST /seed. *)
Definition seeded_db : Database := insert_many empty_db "episode" demo.

(** A store holding one episode document that lacks [number]. *)
Definition drifted_db : Database :=
  mkDatabase "onepiece" {[ "episode" := [ {[ "title" := VStr "Untitled" ]} ] ]} 1 None.

(** Eight digit pairs, a space after each: 24 characters. *)
Definition spaced_id : string := "01 23 45 67 89 ab cd ef ".

(** Keyword arguments for each of the three models, none with a URL. *)
Definition arlong_park : doc :=
  list_to_map
    [ ("number", VInt 31); ("title", VStr "Arlong Park");
      ("synopsis", VStr "Nami's village."); ("duration_minutes", VInt 24);
      ("tags", VList [VStr "nami"; VStr "east blue"]); ("is_featured", VBool true) ].

Definition nami : doc :=
  list_to_map
    [ ("name", VStr "Nami"); ("email", VStr "nami@example.com");
      ("address", VStr "Cocoyasi Village"); ("age", VInt 20) ].

Definition east_blue : doc :=
  list_to_map
    [ ("title", VStr "East Blue Saga");
      ("episode_ids", VList [VStr "0123456789abcdef01234567"]) ].

(** ** Vocabulary of the properties *)

(** What GET /test reports under [database], by the state of the store. *)
Definition database_status (db : option Database) : string :=
  match db with
  | None => "⚠️  Available but not initialized"
  | Some d =>
      match names_error d with
      | None => "✅ Connected & Working"
      | Some msg => "⚠️  Connected but Error: " +:+ substring 0 50 msg
      end
  end.

Definition seeded_response : doc :=
  list_to_map [ ("seeded", VBool true); ("count", VInt 3) ].

Definition not_seeded_response : doc :=
  list_to_map [ ("seeded", VBool false); ("message", VStr "Episodes already exist") ].

(** The validator reads its keyword arguments through these ten keys only. *)
Definition Episode_fields : list string :=
  [ "number"; "season"; "title"; "synopsis"; "thumbnail_url"; "poster_url";
    "stream_url"; "duration_minutes"; "tags"; "is_featured" ].

(** The documents a GET /episodes request reads from the store. *)
Definition selected (d : Database) (tag : option string) (featured : option bool)
    (lim : Z) : list doc :=
  limit lim (find d "episode" (episode_query tag featured)).

(** Field updates on a record, to state what validation returns. *)
Definition with_number (n : Z) (e : Episode) : Episode :=
  mkEpisode n (season e) (title e) (synopsis e) (thumbnail_url e) (poster_url e)
    (stream_url e) (duration_minutes e) (tags e) (is_featured e).

Definition with_season (s : Z) (e : Episode) : Episode :=
  mkEpisode (number e) s (title e) (synopsis e) (thumbnail_url e) (poster_url e)
    (stream_url e) (duration_minutes e) (tags e) (is_featured e).

Definition with_duration (d : option Z) (e : Episode) : Episode :=
  mkEpisode (number e) (season e) (title e) (synopsis e) (thumbnail_url e)
    (poster_url e) (stream_url e) d (tags e) (is_featured e).

(** ** [schemas.py]: the [User] and [Collection] models *)

Record User : Type := mkUser {
  user_name : string;
  user_email : string;
  user_address : string;
  user_age : option Z;
  user_is_active : bool
}.

Definition User_validate (kw : doc) : result User :=
  n ← required kw "name" str_field;
  e ← required kw "email" str_field;
  a ← required kw "address" str_field;
  ag ← optional kw "age" (bounded_int (Some 0%Z) (Some 120%Z));
  ac ← with_default kw "is_active" true bool_field;
  Ok (mkUser n e a ag ac).

Record Collection : Type := mkCollection {
  collection_title : string;
  collection_description : option string;
  collection_episode_ids : list string;
  collection_cover_url : option string
}.

Definition Collection_validate (kw : doc) : result Collection :=
  t ← required kw "title" str_field;
  d ← optional kw "description" str_field;
  ids ← with_default kw "episode_ids" [] list_str_field;
  c ← optional kw "cover_url" url_field;
  Ok (mkCollection t d ids c).

(** What a schema asks of the keyword arguments for one field: a required
    field is present with the value; a field with a default is present
    with the value or absent with the default; an optional field is
    present with the value, or absent or [None]. *)
Definition is_required {A} (inj : A -> value) (kw : doc) (f : string) (a : A) : Prop :=
  kw !! f = Some (inj a).

Definition is_defaulted {A} (inj : A -> value) (kw : doc) (f : string) (dflt a : A)
  : Prop :=
  kw !! f = Some (inj a) \/ (kw !! f = None /\ a = dflt).

Definition is_optional {A} (inj : A -> value) (kw : doc) (f : string) (o : option A)
  : Prop :=
  match o with
  | Some a => kw !! f = Some (inj a)
  | None => kw !! f = None \/ kw !! f = Some VNone
  end.

Definition in_range (lo hi : Z) (o : option Z) : Prop :=
  match o with
  | Some z => (lo <= z <= hi)%Z
  | None => True
  end.

Definition VStrs (l : list string) : value := VList (map VStr l).

(** What [create_collection] keeps of an identifier it accepts. *)
Definition canonical (s : string) : string := lower (ObjectId.strip_space s).

Definition accepted (s : string) : bool :=
  match ObjectId.parse s with Some _ => true | None => false end.

Definition is_lower_hex (c : ascii) : bool :=
  let n := N_of_ascii c in
  ((48 <=? n) && (n <=? 57))%N || ((97 <=? n) && (n <=? 102))%N.

(** The three schemas, field by field. *)
Definition Episode_accepts (kw : doc) (e : Episode) : Prop :=
  is_required VInt kw "number" (number e)
  /\ is_defaulted VInt kw "season" 1%Z (season e)
  /\ is_required VStr kw "title" (title e)
  /\ is_optional VStr kw "synopsis" (synopsis e)
  /\ is_optional VStr kw "thumbnail_url" (thumbnail_url e)
  /\ is_optional VStr kw "poster_url" (poster_url e)
  /\ is_optional VStr kw "stream_url" (stream_url e)
  /\ is_optional VInt kw "duration_minutes" (duration_minutes e)
  /\ is_defaulted VStrs kw "tags" [] (tags e)
  /\ is_defaulted VBool kw "is_featured" false (is_featured e).

Definition User_accepts (kw : doc) (u : User) : Prop :=
  is_required VStr kw "name" (user_name u)
  /\ is_required VStr kw "email" (user_email u)
  /\ is_required VStr kw "address" (user_address u)
  /\ is_optional VInt kw "age" (user_age u)
  /\ in_range 0 120 (user_age u)
  /\ is_defaulted VBool kw "is_active" true (user_is_active u).

Definition Collection_accepts (kw : doc) (c : Collection) : Prop :=
  is_required VStr kw "title" (collection_title c)
  /\ is_optional VStr kw "description" (collection_description c)
  /\ is_defaulted VStrs kw "episode_ids" [] (collection_episode_ids c)
  /\ is_optional VStr kw "cover_url" (collection_cover_url c)
  /\ url_opt_ok (collection_cover_url c) = true.


(** * Properties *)

(** ** Identifiers *)

Lemma hexval_facts (c : ascii) (n : N) :
  ObjectId.hexval c = Some n ->
  (n < 16)%N /\ ObjectId.hexdigit n = lower_ascii c
  /\ ObjectId.is_space c = false /\ is_lower_hex (lower_ascii c) = true.
Proof.
  destruct c as [[] [] [] [] [] [] [] []]; vm_compute; intros H;
    first [discriminate H | injection H as <-; repeat split; reflexivity].
Qed.

Lemma byte_split (h l : N) :
  (l < 16)%N -> ((16 * h + l) / 16 = h)%N /\ ((16 * h + l) mod 16 = l)%N.
Proof.
  intros Hl. split.
  - symmetry. apply (N.div_unique _ 16 h l); [assumption | reflexivity].
  - symmetry. apply (N.mod_unique _ 16 h l); [assumption | reflexivity].
Qed.

(** A character at a time, with the tail and the tail of the tail at hand,
    as [fromhex] recurses. *)
Lemma string_two_ind (P : string -> Prop) :
  P EmptyString ->
  (forall a, P (String a EmptyString)) ->
  (forall a b r, P r -> P (String b r) -> P (String a (String b r))) ->
  forall s, P s.
Proof.
  intros H0 H1 H2.
  assert (forall s, P s /\ forall a, P (String a s)) as H.
  { induction s as [|c s [IH1 IH2]]; split; auto. }
  intros s. apply H.
Qed.

Lemma fromhex_cons (a : ascii) (r : string) :
  ObjectId.fromhex (String a r)
  = if ObjectId.is_space a then ObjectId.fromhex r
    else match r with
         | String b r' =>
             match ObjectId.hexval a, ObjectId.hexval b, ObjectId.fromhex r' with
             | Some h, Some l, Some bs => Some ((16 * h + l)%N :: bs)
             | _, _, _ => None
             end
         | EmptyString => None
         end.
Proof. reflexivity. Qed.

(** What [fromhex] accepts it gives back, through [hexlify], as the digits
    of the input in lower case, whitespace gone. *)
Lemma hexlify_fromhex (s : string) (bs : list N) :
  ObjectId.fromhex s = Some bs ->
  ObjectId.hexlify bs = canonical s
  /\ forallb is_lower_hex (list_ascii_of_string (canonical s)) = true.
Proof.
  unfold canonical. revert bs.
  induction s as [|a|a b r IHr IHbr] using string_two_ind; intros bs H.
  - injection H as <-. split; reflexivity.
  - rewrite fromhex_cons in H. cbn [ObjectId.strip_space].
    destruct (ObjectId.is_space a); [|discriminate H].
    injection H as <-. split; reflexivity.
  - rewrite fromhex_cons in H.
    change (ObjectId.strip_space (String a (String b r)))
      with (if ObjectId.is_space a then ObjectId.strip_space (String b r)
            else String a (ObjectId.strip_space (String b r))).
    destruct (ObjectId.is_space a); [exact (IHbr bs H)|].
    destruct (ObjectId.hexval a) as [h|] eqn:Ha; [|discriminate H].
    destruct (ObjectId.hexval b) as [l|] eqn:Hb; [|discriminate H].
    destruct (ObjectId.fromhex r) as [bs'|]; [|discriminate H].
    injection H as <-.
    destruct (hexval_facts _ _ Ha) as (_ & Ea & _ & La).
    destruct (hexval_facts _ _ Hb) as (Hl & Eb & Sb & Lb).
    destruct (byte_split h l Hl) as [Ed Em].
    destruct (IHr bs' eq_refl) as [E L].
    cbn [ObjectId.strip_space]. rewrite Sb.
    cbn [ObjectId.hexlify lower list_ascii_of_string forallb].
    rewrite Ed, Em, Ea, Eb, E, La, Lb, L. split; reflexivity.
Qed.

Lemma accepted_parse (s : string) :
  accepted s = true <-> exists o, ObjectId.parse s = Some o.
Proof.
  unfold accepted. destruct (ObjectId.parse s) as [o|]; split.
  - intros _. exists o. reflexivity.
  - reflexivity.
  - discriminate.
  - intros [o H]. discriminate H.
Qed.

Lemma to_str_parse (s : string) (o : ObjectId.t) :
  ObjectId.parse s = Some o ->
  ObjectId.to_str o = canonical s
  /\ forallb is_lower_hex (list_ascii_of_string (canonical s)) = true.
Proof.
  unfold ObjectId.parse, ObjectId.to_str.
  destruct (String.length s =? 24)%nat; [|discriminate].
  destruct (ObjectId.fromhex s) as [bs|] eqn:E; [|discriminate].
  intros H. injection H as <-. apply hexlify_fromhex, E.
Qed.

(** Two characters at a time, as [fromhex] consumes them. *)
Lemma string_pair_ind (P : string -> Prop) :
  P EmptyString ->
  (forall a, P (String a EmptyString)) ->
  (forall a b r, P r -> P (String a (String b r))) ->
  forall s, P s.
Proof.
  intros H0 H1 H2.
  assert (forall s, P s /\ forall a, P (String a s)) as H.
  { induction s as [|c s [IH1 IH2]]; split; auto. }
  intros s. apply H.
Qed.

Lemma fromhex_digits (s : string) :
  Nat.even (String.length s) = true ->
  forallb ObjectId.is_hex (list_ascii_of_string s) = true ->
  is_Some (ObjectId.fromhex s) /\ ObjectId.strip_space s = s.
Proof.
  induction s as [|a|a b r IH] using string_pair_ind.
  - intros _ _. split; [eexists|]; reflexivity.
  - intros H. discriminate H.
  - cbn [String.length Nat.even list_ascii_of_string forallb].
    unfold ObjectId.is_hex at 1 2.
    destruct (ObjectId.hexval a) as [h|] eqn:Ha; [|discriminate].
    destruct (ObjectId.hexval b) as [l|] eqn:Hb; [|discriminate].
    cbn [andb]. intros He Hh. destruct (IH He Hh) as [[bs Hbs] Hs].
    destruct (hexval_facts _ _ Ha) as (_ & _ & Sa & _).
    destruct (hexval_facts _ _ Hb) as (_ & _ & Sb & _).
    rewrite fromhex_cons, Sa, Ha, Hb, Hbs. cbn [ObjectId.strip_space].
    rewrite Sa, Sb, Hs. split; [eexists|]; reflexivity.
Qed.

(** An identifier of 24 hexadecimal digits is accepted and kept as its
    lower-case form. *)
Lemma parse_valid (s : string) :
  ObjectId.is_valid s = true -> accepted s = true /\ canonical s = lower s.
Proof.
  unfold ObjectId.is_valid. intros H. apply andb_true_iff in H as [Hlen Hhex].
  apply Nat.eqb_eq in Hlen.
  destruct (fromhex_digits s) as [[bs Hbs] Hs]; [rewrite Hlen; reflexivity | exact Hhex |].
  split.
  - unfold accepted, ObjectId.parse. rewrite Hlen, Hbs. reflexivity.
  - unfold canonical. rewrite Hs. reflexivity.
Qed.

Lemma collect_valid_ids_spec (eids acc : list string) :
  collect_valid_ids eids acc
  = (acc ++ map canonical (List.filter accepted eids))%list.
Proof.
  revert acc. induction eids as [|eid r IH]; intros acc; cbn [collect_valid_ids List.filter].
  - cbn. rewrite app_nil_r. reflexivity.
  - unfold accepted at 1. destruct (ObjectId.parse eid) as [o|] eqn:E.
    + rewrite IH. destruct (to_str_parse _ _ E) as [-> _].
      rewrite <- app_assoc. reflexivity.
    + apply IH.
Qed.

Lemma coll_insert_one (d : Database) (c : string) (x : doc) :
  x !! "_id" = None ->
  coll (insert_one d c x).1 c
  = (coll d c ++ [<["_id" := VOid (ObjectId.fresh (next_id d))]> x])%list.
Proof.
  intros H. unfold insert_one. rewrite H. unfold coll at 1. cbn.
  rewrite lookup_insert_eq. reflexivity.
Qed.

(** ** Writers and the collections they touch *)

Lemma insert_one_fresh (d : Database) (c : string) (x : doc) :
  x !! "_id" = None ->
  insert_one d c x
  = (mkDatabase (name d)
       (<[c := (coll d c ++ [<["_id" := VOid (ObjectId.fresh (next_id d))]> x])%list]>
          (collections d))
       (N.succ (next_id d)) (names_error d),
     VOid (ObjectId.fresh (next_id d))).
Proof. intros H. unfold insert_one. rewrite H. reflexivity. Qed.

Lemma create_collection_eval (d : Database) (p : CreateCollectionRequest) :
  let data := <["episode_ids" := VStrs (collect_valid_ids (cc_episode_ids p) [])]>
                (CreateCollectionRequest_dict p) in
  create_collection (Some d) p
  = (Ok {[ "id" := VStr (ObjectId.to_str (ObjectId.fresh (next_id d))) ]},
     Some (insert_one d "collection" data).1).
Proof.
  intros data. unfold create_collection, create_document.
  change (<["episode_ids" := VList (map VStr (collect_valid_ids (cc_episode_ids p) []))]>
            (CreateCollectionRequest_dict p)) with data.
  assert (data !! "_id" = None) as Hid by reflexivity.
  rewrite (insert_one_fresh _ _ _ Hid). reflexivity.
Qed.

(** C5: a POST /collections request whose [episode_ids] holds the
    24-character string of eight digit pairs with a space after each.  The
    string is not an identifier of 24 hexadecimal digits, yet [ObjectId]
    takes it, so the loop does not pass it over: the request succeeds and
    the stored collection lists the 16-digit string "0123456789abcdef",
    itself no identifier. *)
Theorem create_collection_keeps_spaced_id (d : Database) :
  ObjectId.is_valid spaced_id = false
  /\ accepted spaced_id = true
  /\ ObjectId.is_valid "0123456789abcdef" = false
  /\ exists i d' stored,
       create_collection (Some d) (mkCreateCollectionRequest "East Blue" None [spaced_id] None)
       = (Ok {[ "id" := VStr i ]}, Some d')
       /\ coll d' "collection" = (coll d "collection" ++ [stored])%list
       /\ stored !! "episode_ids" = Some (VStrs ["0123456789abcdef"]).
Proof.
  split; [reflexivity|]. split; [reflexivity|]. split; [reflexivity|].
  set (p := mkCreateCollectionRequest "East Blue" None [spaced_id] None).
  set (data := <["episode_ids" := VStrs (collect_valid_ids (cc_episode_ids p) [])]>
                 (CreateCollectionRequest_dict p)).
  assert (data !! "_id" = None) as Hid by reflexivity.
  exists (ObjectId.to_str (ObjectId.fresh (next_id d))),
         (insert_one d "collection" data).1,
         (<["_id" := VOid (ObjectId.fresh (next_id d))]> data).
  split; [apply create_collection_eval|]. split; [apply coll_insert_one, Hid|].
  reflexivity.
Qed.

(** ** The [Episode] schema *)

(** ** The [Episode] schema *)

Lemma bind_Ok {A B} (r : result A) (k : A -> result B) (b : B) :
  (a ← r; k a) = Ok b <-> exists a, r = Ok a /\ k a = Ok b.
Proof.
  destruct r as [a|e]; cbn; split.
  - intros H. exists a. split; [reflexivity | exact H].
  - intros (a' & Ha & H). injection Ha as ->. exact H.
  - discriminate.
  - intros (a' & Ha & _). discriminate Ha.
Qed.

Lemma bounded_int_Ok (lo hi : option Z) (f : string) (v : value) (z : Z) :
  bounded_int lo hi f v = Ok z <->
  v = VInt z
  /\ match lo with Some b => (b <= z)%Z | None => True end
  /\ match hi with Some b => (z <= b)%Z | None => True end.
Proof.
  unfold bounded_int, int_field, ge, le.
  destruct v as [| | x | | |]; cbn;
    try (split; [discriminate | intros (Hv & _); discriminate Hv]).
  destruct lo as [lo|], hi as [hi|]; cbn;
    repeat match goal with
    | |- context [(?a <=? ?b)%Z] => destruct (Z.leb_spec a b); cbn
    end;
    split; intros Hyp;
    try discriminate Hyp;
    try (injection Hyp as ->; repeat split; lia);
    try (destruct Hyp as (Hv & Hlo & Hhi); injection Hv as ->; first [reflexivity | lia]).
Qed.

Lemma traverse_str_field (f : string) (l : list string) :
  traverse (str_field f) (map VStr l) = Ok l.
Proof. induction l as [|s l IH]; cbn; [reflexivity | rewrite IH; reflexivity]. Qed.

Lemma Episode_validate_ext (kw kw' : doc) :
  Forall (fun f => kw !! f = kw' !! f) Episode_fields ->
  Episode_validate kw = Episode_validate kw'.
Proof.
  intros H. unfold Episode_fields in H.
  repeat (apply Forall_cons_1 in H; destruct H as [? H]).
  unfold Episode_validate, required, with_default, optional.
  repeat match goal with E : kw !! _ = _ |- _ => rewrite E; clear E end.
  reflexivity.
Qed.

Lemma bounded_int_VInt (lo hi : option Z) (f : string) (z : Z) :
  match lo with Some b => (b <=? z)%Z | None => true end = true ->
  match hi with Some b => (z <=? b)%Z | None => true end = true ->
  bounded_int lo hi f (VInt z) = Ok z.
Proof.
  intros Hlo Hhi. apply bounded_int_Ok. split; [reflexivity|].
  destruct lo, hi; repeat split; lia.
Qed.

(** The validator succeeds exactly when each of its ten steps does. *)
Lemma Episode_validate_Ok (kw : doc) (e : Episode) :
  Episode_validate kw = Ok e <->
  required kw "number" (bounded_int (Some 1%Z) None) = Ok (number e)
  /\ with_default kw "season" 1%Z (bounded_int (Some 1%Z) None) = Ok (season e)
  /\ required kw "title" str_field = Ok (title e)
  /\ optional kw "synopsis" str_field = Ok (synopsis e)
  /\ optional kw "thumbnail_url" url_field = Ok (thumbnail_url e)
  /\ optional kw "poster_url" url_field = Ok (poster_url e)
  /\ optional kw "stream_url" url_field = Ok (stream_url e)
  /\ optional kw "duration_minutes" (bounded_int (Some 1%Z) (Some 240%Z))
     = Ok (duration_minutes e)
  /\ with_default kw "tags" [] list_str_field = Ok (tags e)
  /\ with_default kw "is_featured" false bool_field = Ok (is_featured e).
Proof.
  unfold Episode_validate.
  repeat match goal with
  | |- (mbind _ ?r = Ok _) <-> _ =>
      destruct r as [?|?]; cbn [mbind result_bind];
      [| split; [discriminate | intros Hyp; decompose [and] Hyp; congruence]]
  end.
  destruct e; cbn. split.
  - intros [= -> -> -> -> -> -> -> -> -> ->]. repeat split.
  - intros Hyp; decompose [and] Hyp; congruence.
Qed.

Lemma validate_rejected (kw : doc) :
  (forall e, Episode_validate kw <> Ok e) -> exists x, Episode_validate kw = Raise x.
Proof.
  intros H. destruct (Episode_validate kw) as [e|x]; [|eauto].
  exfalso. apply (H e). reflexivity.
Qed.

Ltac other_fields :=
  unfold required, with_default, optional in *;
  rewrite ?lookup_insert_ne, ?lookup_delete_ne by discriminate;
  try assumption.

(** C6: validation rejects a [duration_minutes] outside 1..240 and a
    [number] or [season] that is 0 or less; on keyword arguments that
    validate, any [number] and [season] from 1 up and any
    [duration_minutes] in 1..240 is accepted in their place, an absent
    [season] is 1, and [duration_minutes] may be absent or [None]. *)
Theorem Episode_validate_ranges (kw : doc) :
  (forall d, kw !! "duration_minutes" = Some (VInt d) -> (d < 1 \/ 240 < d)%Z ->
     exists x, Episode_validate kw = Raise x)
  /\ (forall n, kw !! "number" = Some (VInt n) -> (n <= 0)%Z ->
     exists x, Episode_validate kw = Raise x)
  /\ (forall s, kw !! "season" = Some (VInt s) -> (s <= 0)%Z ->
     exists x, Episode_validate kw = Raise x)
  /\ (forall e, Episode_validate kw = Ok e ->
     (forall n, (1 <= n)%Z ->
        Episode_validate (<["number" := VInt n]> kw) = Ok (with_number n e))
     /\ (forall s, (1 <= s)%Z ->
        Episode_validate (<["season" := VInt s]> kw) = Ok (with_season s e))
     /\ Episode_validate (delete "season" kw) = Ok (with_season 1 e)
     /\ (forall d, (1 <= d <= 240)%Z ->
        Episode_validate (<["duration_minutes" := VInt d]> kw)
        = Ok (with_duration (Some d) e))
     /\ Episode_validate (delete "duration_minutes" kw) = Ok (with_duration None e)
     /\ Episode_validate (<["duration_minutes" := VNone]> kw)
        = Ok (with_duration None e)).
Proof.
  split; [|split; [|split]].
  - intros d Hd Hout. apply validate_rejected. intros e He.
    apply Episode_validate_Ok in He.
    destruct He as (_ & _ & _ & _ & _ & _ & _ & Hdu & _).
    unfold optional in Hdu. rewrite Hd in Hdu.
    apply bind_Ok in Hdu as (z & Hz & _). apply bounded_int_Ok in Hz.
    destruct Hz as ([= <-] & ? & ?). lia.
  - intros n Hn Hle. apply validate_rejected. intros e He.
    apply Episode_validate_Ok in He. destruct He as (Hnum & _).
    unfold required in Hnum. rewrite Hn in Hnum. apply bounded_int_Ok in Hnum.
    destruct Hnum as ([= <-] & ? & _). lia.
  - intros s Hs Hle. apply validate_rejected. intros e He.
    apply Episode_validate_Ok in He. destruct He as (_ & Hse & _).
    unfold with_default in Hse. rewrite Hs in Hse. apply bounded_int_Ok in Hse.
    destruct Hse as ([= <-] & ? & _). lia.
  - intros e He. apply Episode_validate_Ok in He.
    destruct He as (Hn & Hs & Ht & Hsy & Hth & Hpo & Hst & Hdu & Htg & Hfe).
    repeat split; intros; apply Episode_validate_Ok; cbn;
      (repeat split; [other_fields ..]).
    all: rewrite ?lookup_insert_eq, ?lookup_delete_eq; try reflexivity.
    all: rewrite bounded_int_VInt by (cbn; lia); reflexivity.
Qed.

(** ** Stored documents *)

Lemma lookup_serialize_doc (d : doc) (k : string) :
  k <> "id" -> k <> "_id" -> serialize_doc d !! k = d !! k.
Proof.
  intros Hid H_id. unfold serialize_doc.
  destruct (size d =? 0)%nat; [reflexivity|].
  destruct (d !! "_id"); [|reflexivity].
  rewrite lookup_insert_ne, lookup_delete_ne by congruence. reflexivity.
Qed.

Lemma serialize_doc_stored (d : doc) (i : value) :
  d !! "_id" = None ->
  serialize_doc (<["_id" := i]> d) = <["id" := VStr (py_str i)]> d.
Proof.
  intros H. unfold serialize_doc.
  destruct (size (<["_id" := i]> d) =? 0)%nat eqn:E.
  - apply Nat.eqb_eq, map_size_empty_iff in E.
    exfalso. exact (insert_non_empty _ _ _ E).
  - rewrite lookup_insert_eq, delete_insert_eq, delete_id by exact H. reflexivity.
Qed.

Lemma matches_empty (d : doc) : matches ∅ d = true.
Proof. unfold matches. rewrite map_to_list_empty. reflexivity. Qed.

Lemma find_all (d : Database) (c : string) : find d c ∅ = coll d c.
Proof.
  unfold find. induction (coll d c) as [|x l IH]; [reflexivity|].
  cbn. rewrite matches_empty, IH. reflexivity.
Qed.

(** ** GET /episodes *)

(** With [db] set every call runs into the [async for] over a list. *)
Lemma list_episodes_raises (d : Database) (tag : option string)
    (featured : option bool) (lim : Z) :
  list_episodes (Some d) tag featured lim
  = Raise (TypeError "'async for' requires an object with __aiter__ method, got list").
Proof. reflexivity. Qed.

(** C2: with the store configured GET /episodes hands the client no
    record that is outside the schema, and a stored document that fails
    validation aborts the whole response with a 500 rather than being
    passed through or skipped: the handler raises at its [async for]
    statement on every call, before it maps any document, so it answers
    500 and returns no record at all, whatever the documents hold. *)
Theorem list_episodes_validated (d : Database) (tag : option string)
    (featured : option bool) (lim : Z) :
  (exists err,
      list_episodes (Some d) tag featured lim = Raise err
      /\ http_status (@Raise (list Episode) err) = 500%Z)
  /\ (forall eps, list_episodes (Some d) tag featured lim <> Ok eps)
  /\ (Exists (fun x => exists err, Episode_validate x = Raise err)
        (selected d tag featured lim) ->
      exists err,
        list_episodes (Some d) tag featured lim = Raise err
        /\ http_status (@Raise (list Episode) err) = 500%Z).
Proof.
  rewrite list_episodes_raises. split; [|split].
  - eexists. split; reflexivity.
  - intros eps H. discriminate H.
  - intros _. eexists. split; reflexivity.
Qed.

(** ** Limits *)

(** ** Limits *)

Lemma length_limit {A} (n : Z) (l : list A) :
  (0 < n)%Z -> length (limit n l) = Nat.min (Z.to_nat n) (length l).
Proof.
  intros Hn. unfold limit. destruct (Z.eqb_spec n 0) as [->|_]; [lia|].
  rewrite length_take. rewrite Zabs2Nat.abs_nat_nonneg by lia. reflexivity.
Qed.

Lemma length_limit_le {A} (n : Z) (l : list A) :
  (0 < n)%Z -> (Z.of_nat (length (limit n l)) <= n)%Z.
Proof. intros Hn. rewrite length_limit by exact Hn. lia. Qed.

(** C7, as amended: for a [limit] of 1 or more, GET /episodes/raw and
    GET /collections return the first [limit] documents of the collection
    (all of them if there are fewer), and GET /episodes, when it returns,
    returns a record for each of the first [limit] matching documents; in
    each case at most [limit] items. *)
Theorem limit_caps (d : Database) (lim : Z) :
  (0 < lim)%Z ->
  (forall tag featured,
      match list_episodes (Some d) tag featured lim with
      | Ok eps =>
          length eps
          = Nat.min (Z.to_nat lim) (length (find d "episode" (episode_query tag featured)))
          /\ (Z.of_nat (length eps) <= lim)%Z
      | Raise _ => True
      end)
  /\ (exists docs,
        list_episodes_raw (Some d) lim = Ok docs
        /\ length docs = Nat.min (Z.to_nat lim) (length (coll d "episode"))
        /\ (Z.of_nat (length docs) <= lim)%Z)
  /\ (exists docs,
        list_collections (Some d) lim = Ok docs
        /\ length docs = Nat.min (Z.to_nat lim) (length (coll d "collection"))
        /\ (Z.of_nat (length docs) <= lim)%Z).
Proof.
  intros Hlim. split; [|split].
  - intros tag featured. rewrite list_episodes_raises. exact I.
  - eexists. split; [reflexivity|]. rewrite length_map, find_all.
    split; [apply length_limit, Hlim | apply length_limit_le, Hlim].
  - eexists. split; [reflexivity|]. rewrite length_map, find_all.
    split; [apply length_limit, Hlim | apply length_limit_le, Hlim].
Qed.

(** ** POST /seed *)

(** ** POST /seed *)

Lemma coll_insert_many (d : Database) (c : string) (xs : list doc) :
  Forall (fun x => x !! "_id" = None) xs ->
  map (delete "_id") (coll (insert_many d c xs) c)
  = (map (delete "_id") (coll d c) ++ xs)%list.
Proof.
  intros H. revert d. induction H as [|x r Hx _ IH]; intros d; cbn [insert_many].
  - rewrite app_nil_r. reflexivity.
  - rewrite IH, (coll_insert_one _ _ _ Hx), map_app. cbn [map].
    rewrite delete_insert_eq, delete_id by exact Hx.
    rewrite <- app_assoc. reflexivity.
Qed.

Lemma demo_without_id : Forall (fun x : doc => x !! "_id" = None) demo.
Proof. repeat constructor. Qed.

Lemma seed_demo_nonempty (d : Database) :
  coll d "episode" <> [] -> seed_demo (Some d) = (Ok not_seeded_response, Some d).
Proof.
  intros H. unfold seed_demo, count_documents. rewrite find_all.
  destruct (coll d "episode") as [|x l]; [congruence|]. reflexivity.
Qed.

(** C4: on a configured store with no episodes, POST /seed answers
    [{seeded: true, count: 3}] and leaves the three demo episodes, each
    under a new identifier, in the episode collection; a second POST /seed
    then answers [{seeded: false, ...}] and leaves the store as it found
    it.  On any store whose episode collection is not empty, POST /seed
    answers [{seeded: false, ...}] and inserts nothing. *)
Theorem seed_demo_once (d : Database) :
  (coll d "episode" = [] ->
   exists d1,
     seed_demo (Some d) = (Ok seeded_response, Some d1)
     /\ map (delete "_id") (coll d1 "episode") = demo
     /\ length (coll d1 "episode") = 3
     /\ seed_demo (Some d1) = (Ok not_seeded_response, Some d1))
  /\ (coll d "episode" <> [] ->
      seed_demo (Some d) = (Ok not_seeded_response, Some d)).
Proof.
  split; [|apply seed_demo_nonempty].
  intros Hempty. exists (insert_many d "episode" demo).
  pose proof (coll_insert_many d "episode" demo demo_without_id) as Hcoll.
  rewrite Hempty in Hcoll. cbn [map app] in Hcoll.
  assert (length (coll (insert_many d "episode" demo) "episode") = 3) as Hlen.
  { rewrite <- (length_map (delete "_id")), Hcoll. reflexivity. }
  split; [|split; [exact Hcoll | split; [exact Hlen|]]].
  - unfold seed_demo, count_documents. rewrite find_all, Hempty. reflexivity.
  - apply seed_demo_nonempty. intros Hnil. rewrite Hnil in Hlen. discriminate Hlen.
Qed.

(** ** The unconfigured store and GET /test *)

(** C8: with [db] unset, each data endpoint answers 500, whatever its
    parameters, the handlers that write leave [db] unset, and GET /test
    answers 200. *)
Theorem unconfigured_store (env : gmap string string) (tag : option string)
    (featured : option bool) (lim : Z) (payload : CreateCollectionRequest) :
  seed_demo None = (not_configured, None)
  /\ list_episodes None tag featured lim = not_configured
  /\ list_episodes_raw None lim = not_configured
  /\ list_collections None lim = not_configured
  /\ create_collection None payload = (not_configured, None)
  /\ http_status (@not_configured doc) = 500%Z
  /\ http_status (@not_configured (list doc)) = 500%Z
  /\ http_status (@not_configured (list Episode)) = 500%Z
  /\ http_status (test_database None env) = 200%Z.
Proof. repeat split. Qed.

(** C9: GET /test returns, and answers 200, for every state of the
    store and of the environment: its [database] field reads
    "Available but not initialized" when [db] is unset, "Connected &
    Working" when the collection names can be listed, and "Connected but
    Error:" followed by the first 50 characters of the failure when
    listing them fails. *)
Theorem test_database_never_raises (db : option Database) (env : gmap string string) :
  exists response,
    test_database db env = Ok response
    /\ http_status (test_database db env) = 200%Z
    /\ response !! "database" = Some (VStr (database_status db))
    /\ response !! "backend" = Some (VStr "✅ Running").
Proof.
  destruct db as [[nm cs n [msg|]]|]; eexists; repeat split.
Qed.

(** ** [serialize_doc] *)

(** X1: [serialize_doc] never leaves an [_id] key; it leaves every key
    other than [_id] and [id] as it found it; [id] becomes the string form
    of [_id] when there is one, replacing a stored [id], and is left alone
    otherwise; and serializing twice is serializing once. *)
Theorem serialize_doc_shape (d : doc) :
  serialize_doc d !! "_id" = None
  /\ (forall k, k <> "id" -> k <> "_id" -> serialize_doc d !! k = d !! k)
  /\ serialize_doc d !! "id"
     = match d !! "_id" with
       | Some i => Some (VStr (py_str i))
       | None => d !! "id"
       end
  /\ serialize_doc (serialize_doc d) = serialize_doc d.
Proof.
  assert (serialize_doc d !! "_id" = None) as Hno.
  { unfold serialize_doc. destruct (size d =? 0)%nat eqn:E.
    - apply Nat.eqb_eq, map_size_empty_iff in E. subst d. apply lookup_empty.
    - destruct (d !! "_id") eqn:Hi; [|exact Hi].
      rewrite lookup_insert_ne by discriminate. apply lookup_delete_eq. }
  split; [exact Hno|]. split; [intros k; apply lookup_serialize_doc|]. split.
  - unfold serialize_doc. destruct (size d =? 0)%nat eqn:E.
    + apply Nat.eqb_eq, map_size_empty_iff in E. subst d.
      rewrite lookup_empty. reflexivity.
    + destruct (d !! "_id"); [apply lookup_insert_eq | reflexivity].
  - unfold serialize_doc at 1. rewrite Hno.
    destruct (size (serialize_doc d) =? 0)%nat; reflexivity.
Qed.

(** ** The identifiers POST /collections keeps *)

Lemma accepted_lower_hex (s : string) :
  accepted s = true ->
  forallb is_lower_hex (list_ascii_of_string (canonical s)) = true.
Proof.
  intros H. apply accepted_parse in H as [o Ho]. apply (to_str_parse _ _ Ho).
Qed.

(** X2: the loop of [create_collection] keeps, in the order supplied,
    the entries [ObjectId] accepts, each as its hexadecimal digits in lower
    case with the whitespace gone: what it keeps is never more than was
    supplied and holds lower-case hexadecimal digits only; when every
    entry supplied is an identifier of 24 hexadecimal digits, nothing is
    dropped and each is kept as its lower-case form. *)
Theorem collect_valid_ids_canonical (ids : list string) :
  collect_valid_ids ids [] = map canonical (List.filter accepted ids)
  /\ length (collect_valid_ids ids []) <= length ids
  /\ Forall (fun s => forallb is_lower_hex (list_ascii_of_string s) = true)
       (collect_valid_ids ids [])
  /\ (Forall (fun s => ObjectId.is_valid s = true) ids ->
      collect_valid_ids ids [] = map lower ids).
Proof.
  rewrite !collect_valid_ids_spec. cbn [app].
  split; [reflexivity|]. split; [|split].
  - rewrite length_map. induction ids as [|s r IH]; cbn; [lia|].
    destruct (accepted s); cbn; lia.
  - induction ids as [|s r IH]; cbn [List.filter map]; [constructor|].
    destruct (accepted s) eqn:A; [|exact IH].
    cbn [map]. constructor; [apply accepted_lower_hex, A | exact IH].
  - induction 1 as [|s r Hs _ IH]; [reflexivity|].
    destruct (parse_valid s Hs) as [A C]. cbn [List.filter map].
    rewrite A. cbn [map]. rewrite C, IH. reflexivity.
Qed.

(** ** Writers and the collections they touch *)

Lemma coll_insert_one_other (d : Database) (c c' : string) (x : doc) :
  c' <> c -> coll (insert_one d c x).1 c' = coll d c'.
Proof.
  intros Hne. unfold insert_one.
  destruct (x !! "_id"); unfold coll; cbn [fst collections];
    rewrite lookup_insert_ne by congruence; reflexivity.
Qed.

Lemma coll_insert_many_other (d : Database) (c c' : string) (xs : list doc) :
  c' <> c -> coll (insert_many d c xs) c' = coll d c'.
Proof.
  intros Hne. revert d. induction xs as [|x r IH]; intros d; cbn [insert_many];
    [reflexivity|].
  rewrite IH. apply coll_insert_one_other, Hne.
Qed.

Lemma list_episodes_coll (d d' : Database) (tag : option string)
    (featured : option bool) (lim : Z) :
  coll d' "episode" = coll d "episode" ->
  list_episodes (Some d') tag featured lim = list_episodes (Some d) tag featured lim.
Proof. intros _. rewrite !list_episodes_raises. reflexivity. Qed.

(** X4: what POST /collections stores is what GET /collections then
    lists last: the listing (with [limit] 0, that is, all of it) is the
    earlier listing followed by one document, whose [id] is the identifier
    the POST returned, whose [title], [description] and [cover_url] are the
    payload's, and whose [episode_ids] are the identifiers kept. *)
Theorem create_then_list_collections (d : Database) (p : CreateCollectionRequest) :
  exists i d' olds new,
    create_collection (Some d) p = (Ok {[ "id" := VStr i ]}, Some d')
    /\ list_collections (Some d) 0 = Ok olds
    /\ list_collections (Some d') 0 = Ok (olds ++ [new])%list
    /\ new !! "id" = Some (VStr i)
    /\ new !! "_id" = None
    /\ new !! "title" = Some (VStr (cc_title p))
    /\ new !! "description" = Some (opt_value VStr (cc_description p))
    /\ new !! "cover_url" = Some (opt_value VStr (cc_cover_url p))
    /\ new !! "episode_ids" = Some (VStrs (collect_valid_ids (cc_episode_ids p) [])).
Proof.
  set (data := <["episode_ids" := VStrs (collect_valid_ids (cc_episode_ids p) [])]>
                 (CreateCollectionRequest_dict p)).
  assert (data !! "_id" = None) as Hid by reflexivity.
  exists (ObjectId.to_str (ObjectId.fresh (next_id d))),
         (insert_one d "collection" data).1,
         (map serialize_doc (coll d "collection")),
         (<["id" := VStr (ObjectId.to_str (ObjectId.fresh (next_id d)))]> data).
  split; [apply create_collection_eval|].
  split; [unfold list_collections; rewrite find_all; reflexivity|].
  split.
  - unfold list_collections. rewrite find_all, (coll_insert_one _ _ _ Hid).
    change (limit 0 ?l) with l. rewrite map_app. cbn [map].
    rewrite (serialize_doc_stored _ _ Hid). reflexivity.
  - split; [apply lookup_insert_eq|].
    repeat split; rewrite lookup_insert_ne by discriminate; reflexivity.
Qed.

(** X5: POST /collections touches the collection named "collection"
    only: every other collection of the store holds what it held, so GET
    /episodes and GET /episodes/raw answer as before. *)
Theorem create_collection_frame (d : Database) (p : CreateCollectionRequest) :
  exists d',
    (create_collection (Some d) p).2 = Some d'
    /\ (forall c, c <> "collection" -> coll d' c = coll d c)
    /\ (forall tag featured lim,
          list_episodes (Some d') tag featured lim
          = list_episodes (Some d) tag featured lim)
    /\ (forall lim, list_episodes_raw (Some d') lim = list_episodes_raw (Some d) lim).
Proof.
  rewrite create_collection_eval. eexists. split; [reflexivity|].
  assert (forall c, c <> "collection" ->
            coll (insert_one d "collection"
                    (<["episode_ids" := VStrs (collect_valid_ids (cc_episode_ids p) [])]>
                       (CreateCollectionRequest_dict p))).1 c = coll d c) as H
    by (intros c Hc; apply coll_insert_one_other, Hc).
  split; [exact H|]. split.
  - intros tag featured lim. apply list_episodes_coll, H. discriminate.
  - intros lim. unfold list_episodes_raw, find. rewrite H by discriminate. reflexivity.
Qed.

(** X6: POST /seed touches the collection named "episode" only, and
    that one only when it is empty: every other collection holds what it
    held, GET /collections answers as before, and a store that already has
    episodes is returned as it was. *)
Theorem seed_demo_frame (d : Database) :
  exists d1,
    (seed_demo (Some d)).2 = Some d1
    /\ (forall c, c <> "episode" -> coll d1 c = coll d c)
    /\ (forall lim, list_collections (Some d1) lim = list_collections (Some d) lim)
    /\ (coll d "episode" <> [] -> d1 = d).
Proof.
  unfold seed_demo, count_documents. rewrite find_all.
  destruct (coll d "episode") as [|x l] eqn:E.
  - exists (insert_many d "episode" demo). split; [reflexivity|].
    assert (forall c, c <> "episode" -> coll (insert_many d "episode" demo) c = coll d c)
      as H by (intros c Hc; apply coll_insert_many_other, Hc).
    split; [exact H|]. split; [|congruence].
    intros lim. unfold list_collections, find. rewrite H by discriminate. reflexivity.
  - exists d. repeat split.
Qed.

(** ** The schemas on typed arguments *)

(** ** The schemas, field by field *)

Lemma required_str_iff (kw : doc) (f s : string) :
  required kw f str_field = Ok s <-> is_required VStr kw f s.
Proof.
  unfold required, is_required, str_field.
  destruct (kw !! f) as [[]|]; split; intros H; congruence.
Qed.

Lemma required_int_iff (kw : doc) (f : string) (lo z : Z) :
  required kw f (bounded_int (Some lo) None) = Ok z
  <-> is_required VInt kw f z /\ (lo <= z)%Z.
Proof.
  unfold required, is_required. destruct (kw !! f) as [v|].
  - rewrite bounded_int_Ok. split.
    + intros (-> & H & _). split; [reflexivity | exact H].
    + intros (Hk & Hz). injection Hk as ->. repeat split. exact Hz.
  - split; [discriminate | intros [Hk _]; discriminate Hk].
Qed.

Lemma default_int_iff (kw : doc) (f : string) (lo dflt z : Z) :
  (lo <= dflt)%Z ->
  with_default kw f dflt (bounded_int (Some lo) None) = Ok z
  <-> is_defaulted VInt kw f dflt z /\ (lo <= z)%Z.
Proof.
  intros Hd. unfold with_default, is_defaulted. destruct (kw !! f) as [v|].
  - rewrite bounded_int_Ok. split.
    + intros (-> & H & _). split; [left; reflexivity | exact H].
    + intros (Hk & Hz). destruct Hk as [Hk|[Hn _]]; [|discriminate Hn].
      injection Hk as ->. repeat split. exact Hz.
  - split.
    + intros [= <-]. split; [right; split; reflexivity | exact Hd].
    + intros ([Hs|[_ ->]] & _); [discriminate Hs | reflexivity].
Qed.

Lemma default_bool_iff (kw : doc) (f : string) (dflt b : bool) :
  with_default kw f dflt bool_field = Ok b <-> is_defaulted VBool kw f dflt b.
Proof.
  unfold with_default, is_defaulted, bool_field.
  destruct (kw !! f) as [[]|]; split; intros H;
    try congruence;
    try (left; congruence);
    try (right; split; congruence);
    destruct H as [H|[H1 H2]]; congruence.
Qed.

(** ** GET /episodes *)

Lemma traverse_Ok {A B} (f : A -> result B) (l : list A) (bs : list B) :
  traverse f l = Ok bs <-> Forall2 (fun a b => f a = Ok b) l bs.
Proof.
  revert bs. induction l as [|a l IH]; intros bs; cbn [traverse].
  - split; [intros [= <-]; constructor | intros H; inversion H; reflexivity].
  - rewrite bind_Ok. split.
    + intros (b & Hb & H). apply bind_Ok in H as (bs' & Hbs & [= <-]).
      constructor; [exact Hb | apply IH, Hbs].
    + intros H. inversion H as [|? b ? bs' Hb Hbs]; subst.
      exists b. split; [exact Hb|]. apply IH in Hbs. rewrite Hbs. reflexivity.
Qed.

Lemma traverse_str_field_iff (f : string) (vs : list value) (l : list string) :
  traverse (str_field f) vs = Ok l <-> vs = map VStr l.
Proof.
  rewrite traverse_Ok. split.
  - induction 1 as [|v s vs l Hv _ IH]; [reflexivity|].
    destruct v; try discriminate Hv. injection Hv as ->. cbn. rewrite IH. reflexivity.
  - intros ->. induction l as [|s l IH]; constructor; [reflexivity | exact IH].
Qed.

Lemma default_list_iff (kw : doc) (f : string) (l : list string) :
  with_default kw f [] list_str_field = Ok l <-> is_defaulted VStrs kw f [] l.
Proof.
  unfold with_default, is_defaulted, VStrs.
  destruct (kw !! f) as [v|].
  - destruct v as [| | | |vs|]; cbn [list_str_field];
      try (split; [discriminate | intros [H|[H _]]; discriminate H]).
    rewrite traverse_str_field_iff. split.
    + intros ->. left. reflexivity.
    + intros [[= ->]|[H _]]; [reflexivity | discriminate H].
  - split.
    + intros [= <-]. right. split; reflexivity.
    + intros [H|[_ ->]]; [discriminate H | reflexivity].
Qed.

Lemma optional_iff {A} (kw : doc) (f : string) (ty : string -> value -> result A)
    (o : option A) :
  optional kw f ty = Ok o
  <-> match o with
      | Some a => exists v, kw !! f = Some v /\ v <> VNone /\ ty f v = Ok a
      | None => kw !! f = None \/ kw !! f = Some VNone
      end.
Proof.
  unfold optional. destruct (kw !! f) as [v|].
  - destruct v; cbn.
    1: { destruct o as [a|]; split; try congruence.
         - intros (v & [= <-] & Hv & _). congruence.
         - intros _. right. reflexivity. }
    all: destruct (ty f _) as [a'|x] eqn:E;
      cbn; destruct o as [a|]; split; try congruence;
      try (intros [= <-]; eexists; repeat split; [discriminate | exact E]);
      try (intros (v & [= <-] & _ & Hv); congruence);
      try (intros [H|H]; discriminate H).
  - destruct o as [a|]; split; try congruence.
    + intros (v & H & _). discriminate H.
    + intros _. left. reflexivity.
Qed.

Lemma optional_str_iff (kw : doc) (f : string) (o : option string) :
  optional kw f str_field = Ok o <-> is_optional VStr kw f o.
Proof.
  rewrite optional_iff. unfold is_optional. destruct o as [s|]; [|reflexivity].
  split.
  - intros (v & Hv & _ & H). destruct v; try discriminate H.
    injection H as <-. exact Hv.
  - intros H. exists (VStr s). repeat split; [exact H | discriminate].
Qed.

Lemma optional_url_iff (kw : doc) (f : string) (o : option string) :
  optional kw f url_field = Ok o <-> is_optional VStr kw f o /\ url_opt_ok o = true.
Proof.
  rewrite optional_iff. unfold is_optional, url_field. destruct o as [s|]; cbn.
  - split.
    + intros (v & Hv & _ & H). destruct v; try discriminate H. cbn in H.
      destruct (HttpUrl_ok s0) eqn:E; [|discriminate H]. injection H as <-. auto.
    + intros (H & Hok). exists (VStr s). repeat split; [exact H | discriminate |].
      cbn. rewrite Hok. reflexivity.
  - split; [intros H; split; [exact H | reflexivity] | intros [H _]; exact H].
Qed.

Lemma optional_int_iff (kw : doc) (f : string) (lo hi : Z) (o : option Z) :
  optional kw f (bounded_int (Some lo) (Some hi)) = Ok o
  <-> is_optional VInt kw f o /\ in_range lo hi o.
Proof.
  rewrite optional_iff. unfold is_optional, in_range. destruct o as [z|].
  - split.
    + intros (v & Hv & _ & H). apply bounded_int_Ok in H as (-> & ? & ?).
      split; [exact Hv | lia].
    + intros (H & Hr). exists (VInt z). repeat split; [exact H | discriminate |].
      apply bounded_int_Ok. repeat split; lia.
  - split; [intros H; split; [exact H | exact I] | intros [H _]; exact H].
Qed.

Lemma Episode_ok_iff (e : Episode) :
  Episode_ok e = true
  <-> (1 <= number e)%Z /\ (1 <= season e)%Z
      /\ url_opt_ok (thumbnail_url e) = true /\ url_opt_ok (poster_url e) = true
      /\ url_opt_ok (stream_url e) = true /\ in_range 1 240 (duration_minutes e).
Proof.
  unfold Episode_ok, in_range. rewrite !andb_true_iff, !Z.leb_le.
  destruct (duration_minutes e) as [d|].
  - rewrite andb_true_iff, !Z.leb_le. tauto.
  - tauto.
Qed.

Lemma Episode_validate_typed (kw : doc) (e : Episode) :
  Episode_validate kw = Ok e <-> Episode_accepts kw e /\ Episode_ok e = true.
Proof.
  rewrite Episode_validate_Ok, Episode_ok_iff. unfold Episode_accepts.
  rewrite required_int_iff, (default_int_iff _ _ 1 1) by lia.
  rewrite required_str_iff, optional_str_iff, !optional_url_iff, optional_int_iff.
  rewrite default_list_iff, default_bool_iff. tauto.
Qed.

(** X7: keyword arguments of the declared types, with no URL among
    them, validate to the record that holds exactly their values: given
    [number] and [title], [season], [tags] and [is_featured] given or
    omitted (1, empty and false when omitted), [synopsis] and
    [duration_minutes] given, omitted or [None], the bounds kept.
    Arguments that lack [number] or [title] are rejected. *)
Theorem Episode_validate_typed_arguments (kw : doc) :
  (forall e,
      Episode_accepts kw e -> Episode_ok e = true ->
      thumbnail_url e = None -> poster_url e = None -> stream_url e = None ->
      Episode_validate kw = Ok e)
  /\ (kw !! "number" = None \/ kw !! "title" = None ->
      exists x, Episode_validate kw = Raise x).
Proof.
  split.
  - intros e Ha Hok _ _ _. apply Episode_validate_typed. split; assumption.
  - intros Hmissing. apply validate_rejected. intros e He.
    apply Episode_validate_typed in He as [(Hn & _ & Ht & _) _].
    unfold is_required in Hn, Ht. destruct Hmissing as [H|H]; congruence.
Qed.

Lemma User_validate_Ok (kw : doc) (u : User) :
  User_validate kw = Ok u
  <-> required kw "name" str_field = Ok (user_name u)
      /\ required kw "email" str_field = Ok (user_email u)
      /\ required kw "address" str_field = Ok (user_address u)
      /\ optional kw "age" (bounded_int (Some 0%Z) (Some 120%Z)) = Ok (user_age u)
      /\ with_default kw "is_active" true bool_field = Ok (user_is_active u).
Proof.
  unfold User_validate.
  repeat match goal with
  | |- (mbind _ ?r = Ok _) <-> _ =>
      destruct r as [?|?]; cbn [mbind result_bind];
      [| split; [discriminate | intros Hyp; decompose [and] Hyp; congruence]]
  end.
  destruct u; cbn. split.
  - intros [= -> -> -> -> ->]. repeat split.
  - intros Hyp; decompose [and] Hyp; congruence.
Qed.

Lemma User_validate_typed (kw : doc) (u : User) :
  User_validate kw = Ok u <-> User_accepts kw u.
Proof.
  rewrite User_validate_Ok. unfold User_accepts.
  rewrite !required_str_iff, optional_int_iff, default_bool_iff. tauto.
Qed.

(** X8: [User] keyword arguments of the declared types validate to the
    record that holds exactly their values: [name], [email] and [address]
    strings, [age] omitted, [None] or an integer from 0 to 120,
    [is_active] a boolean or omitted (then true).  An integer [age] below
    0 or above 120 is rejected, and so are arguments that lack [name],
    [email] or [address]. *)
Theorem User_validate_typed_arguments (kw : doc) :
  (forall u, User_accepts kw u -> User_validate kw = Ok u)
  /\ (forall a, kw !! "age" = Some (VInt a) -> (a < 0 \/ 120 < a)%Z ->
      forall u, User_validate kw <> Ok u)
  /\ (kw !! "name" = None \/ kw !! "email" = None \/ kw !! "address" = None ->
      forall u, User_validate kw <> Ok u).
Proof.
  split; [|split].
  - intros u. apply User_validate_typed.
  - intros a Ha Hout u Hu. apply User_validate_typed in Hu.
    destruct Hu as (_ & _ & _ & Hage & Hr & _).
    unfold is_optional, in_range in Hage, Hr.
    destruct (user_age u) as [z|]; [|destruct Hage; congruence].
    assert (z = a) by congruence. lia.
  - intros Hmissing u Hu. apply User_validate_typed in Hu.
    destruct Hu as (Hn & He & Had & _). unfold is_required in Hn, He, Had.
    destruct Hmissing as [H|[H|H]]; congruence.
Qed.

Lemma Collection_validate_Ok (kw : doc) (c : Collection) :
  Collection_validate kw = Ok c
  <-> required kw "title" str_field = Ok (collection_title c)
      /\ optional kw "description" str_field = Ok (collection_description c)
      /\ with_default kw "episode_ids" [] list_str_field = Ok (collection_episode_ids c)
      /\ optional kw "cover_url" url_field = Ok (collection_cover_url c).
Proof.
  unfold Collection_validate.
  repeat match goal with
  | |- (mbind _ ?r = Ok _) <-> _ =>
      destruct r as [?|?]; cbn [mbind result_bind];
      [| split; [discriminate | intros Hyp; decompose [and] Hyp; congruence]]
  end.
  destruct c; cbn. split.
  - intros [= -> -> -> ->]. repeat split.
  - intros Hyp; decompose [and] Hyp; congruence.
Qed.

Lemma Collection_validate_typed (kw : doc) (c : Collection) :
  Collection_validate kw = Ok c <-> Collection_accepts kw c.
Proof.
  rewrite Collection_validate_Ok. unfold Collection_accepts.
  rewrite required_str_iff, optional_str_iff, default_list_iff, optional_url_iff. tauto.
Qed.

(** X9: [Collection] keyword arguments of the declared types and
    without a cover validate to the record that holds exactly their
    values: [title] a string, [description] a string, omitted or [None],
    [episode_ids] a list of strings or omitted (then empty).  Arguments
    that lack [title], and arguments whose [cover_url] is a string the URL
    test refuses, are rejected. *)
Theorem Collection_validate_typed_arguments (kw : doc) :
  (forall c,
      Collection_accepts kw c -> collection_cover_url c = None ->
      Collection_validate kw = Ok c)
  /\ (kw !! "title" = None -> forall c, Collection_validate kw <> Ok c)
  /\ (forall u, kw !! "cover_url" = Some (VStr u) -> HttpUrl_ok u = false ->
      forall c, Collection_validate kw <> Ok c).
Proof.
  split; [|split].
  - intros c Hc _. apply Collection_validate_typed, Hc.
  - intros Hmissing c Hc. apply Collection_validate_typed in Hc.
    destruct Hc as (Ht & _). unfold is_required in Ht. congruence.
  - intros u Hu Hbad c Hc. apply Collection_validate_typed in Hc.
    destruct Hc as (_ & _ & _ & Hcov & Hok). unfold is_optional in Hcov.
    destruct (collection_cover_url c) as [u'|]; [|destruct Hcov; congruence].
    assert (u' = u) by congruence. subst u'. cbn in Hok. congruence.
Qed.

(** X10: keys that name no field of [Episode] play no part in its
    validation: adding one, changing one or removing one leaves the result
    as it was, a rejection included. *)
Theorem Episode_validate_ignores_extra (kw : doc) (k : string) (v : value) :
  k ∉ Episode_fields ->
  Episode_validate (<[k := v]> kw) = Episode_validate kw
  /\ Episode_validate (delete k kw) = Episode_validate kw.
Proof.
  intros Hk. split; apply Episode_validate_ext, Forall_forall; intros f Hf.
  - apply lookup_insert_ne. intros ->. apply Hk, Hf.
  - apply lookup_delete_ne. intros ->. apply Hk, Hf.
Qed.

(** ** POST /collections against the [Collection] schema *)

(** X12: POST /collections stores the payload's [cover_url]
    unchecked.  The stored document meets the [Collection] schema exactly
    when that [cover_url] is absent or passes the URL test, and it then
    validates to the payload's [title] and [description] with the
    identifiers kept. *)
Theorem created_collection_schema (d : Database) (p : CreateCollectionRequest) :
  exists d' stored,
    (create_collection (Some d) p).2 = Some d'
    /\ coll d' "collection" = (coll d "collection" ++ [stored])%list
    /\ stored !! "cover_url" = Some (opt_value VStr (cc_cover_url p))
    /\ match Collection_validate stored with
       | Ok c =>
           url_opt_ok (cc_cover_url p) = true
           /\ collection_title c = cc_title p
           /\ collection_description c = cc_description p
           /\ collection_episode_ids c = collect_valid_ids (cc_episode_ids p) []
       | Raise _ => url_opt_ok (cc_cover_url p) = false
       end.
Proof.
  set (data := <["episode_ids" := VStrs (collect_valid_ids (cc_episode_ids p) [])]>
                 (CreateCollectionRequest_dict p)).
  assert (data !! "_id" = None) as Hid by reflexivity.
  exists (insert_one d "collection" data).1,
         (<["_id" := VOid (ObjectId.fresh (next_id d))]> data).
  split; [rewrite create_collection_eval; reflexivity|].
  split; [apply coll_insert_one, Hid|].
  split; [reflexivity|].
  unfold Collection_validate, required, optional, with_default.
  change (<["_id" := VOid (ObjectId.fresh (next_id d))]> data !! "title")
    with (Some (VStr (cc_title p))).
  change (<["_id" := VOid (ObjectId.fresh (next_id d))]> data !! "description")
    with (Some (opt_value VStr (cc_description p))).
  change (<["_id" := VOid (ObjectId.fresh (next_id d))]> data !! "episode_ids")
    with (Some (VStrs (collect_valid_ids (cc_episode_ids p) []))).
  change (<["_id" := VOid (ObjectId.fresh (next_id d))]> data !! "cover_url")
    with (Some (opt_value VStr (cc_cover_url p))).
  unfold VStrs. cbn [str_field mbind result_bind list_str_field].
  rewrite traverse_str_field.
  destruct (cc_description p), (cc_cover_url p) as [u|];
    cbn [opt_value str_field url_field url_opt_ok mbind result_bind];
    try destruct (HttpUrl_ok u); cbn [mbind result_bind]; auto.
Qed.

(** ** GET /test, field by field *)

(** X14: in the response of GET /test, [database_url] and
    [database_name] tell only whether the environment variables
    DATABASE_URL and DATABASE_NAME are set and not empty, whatever the
    store; [connection_status] tells whether [db] is set; [collections]
    holds the first ten collection names, and is empty when [db] is unset
    or the names cannot be listed; and the response has these six fields
    and no other. *)
Theorem test_database_fields (db : option Database) (env : gmap string string) :
  exists response,
    test_database db env = Ok response
    /\ response !! "database_url"
       = Some (VStr (if getenv_truthy env "DATABASE_URL" then "✅ Set" else "❌ Not Set"))
    /\ response !! "database_name"
       = Some (VStr (if getenv_truthy env "DATABASE_NAME" then "✅ Set" else "❌ Not Set"))
    /\ response !! "connection_status"
       = Some (VStr (match db with Some _ => "Connected" | None => "Not Connected" end))
    /\ response !! "collections"
       = Some (VStrs (match db with
                      | Some d =>
                          match list_collection_names d with
                          | Ok names => take 10 names
                          | Raise _ => []
                          end
                      | None => []
                      end))
    /\ dom response
       = list_to_set [ "backend"; "database"; "database_url"; "database_name";
                       "connection_status"; "collections" ].
Proof.
  destruct db as [[nm cs n [msg|]]|]; eexists; (split; [reflexivity|]);
    repeat split; apply set_eq; intros k;
    rewrite elem_of_dom, elem_of_list_to_set, !elem_of_cons, elem_of_nil;
    rewrite !lookup_insert_is_Some, !lookup_empty; unfold is_Some; naive_solver.
Qed.

(** ** GET /episodes, whatever the request *)

(** X11: GET /episodes never returns a list.  With [db] unset it
    answers 500 as the other data endpoints do; with [db] set it raises
    the [TypeError] of its [async for] over a list, for every store and
    every [tag], [featured] and [limit], and answers 500. *)
Theorem list_episodes_never_returns (db : option Database) (tag : option string)
    (featured : option bool) (lim : Z) :
  http_status (list_episodes db tag featured lim) = 500%Z
  /\ (forall eps, list_episodes db tag featured lim <> Ok eps)
  /\ (forall d, db = Some d ->
      exists msg, list_episodes db tag featured lim = Raise (TypeError msg)).
Proof.
  destruct db as [d|].
  - rewrite list_episodes_raises. split; [reflexivity|]. split.
    + intros eps H. discriminate H.
    + intros d' _. eexists. reflexivity.
  - split; [reflexivity|]. split.
    + intros eps H. discriminate H.
    + intros d H. discriminate H.
Qed.

End Api.

(** * The properties on the sample data *)

Example limit_zero_is_no_limit :
  length <$> (match list_episodes_raw (Some seeded_db) 0 with
              | Ok docs => Some docs
              | Raise _ => None
              end) = Some 3.
Proof. vm_compute. reflexivity. Qed.

Example create_collection_drops_and_keeps :
  collect_valid_ids ["not-an-id"; "0123456789abcdef01234567"] []
  = ["0123456789abcdef01234567"].
Proof. vm_compute. reflexivity. Qed.

(** C1: POST /seed on an empty store, then GET /episodes.  The three
    documents stored are the demo episodes, each of which validates, under
    identifiers of the store; the read does not give them back: it raises
    at the [async for] statement and answers 500. *)
Theorem stored_episodes_read_raises :
  map (delete "_id") (coll seeded_db "episode") = demo
  /\ Forall (fun x => exists e, Episode_validate sample_url_ok x = Ok e) demo
  /\ list_episodes sample_url_ok (Some seeded_db) None None 50
     = Raise (TypeError "'async for' requires an object with __aiter__ method, got list")
  /\ http_status (list_episodes sample_url_ok (Some seeded_db) None None 50) = 500%Z.
Proof.
  split; [reflexivity|]. split; [|split; reflexivity].
  repeat constructor; eexists; vm_compute; reflexivity.
Qed.

(** C3: on the seeded store the second episode has the tag "zoro" and
    the first two are featured, yet GET /episodes with [tag=zoro], and
    with [featured=true], returns no episode: each request raises at the
    [async for] statement and answers 500. *)
Theorem list_episodes_tag_raises :
  (coll seeded_db "episode" !! 1) ≫= (fun x : doc => x !! "tags")
  = Some (VList [VStr "zoro"; VStr "east blue"])
  /\ list_episodes sample_url_ok (Some seeded_db) (Some "zoro") None 50
     = Raise (TypeError "'async for' requires an object with __aiter__ method, got list")
  /\ http_status (list_episodes sample_url_ok (Some seeded_db) (Some "zoro") None 50)
     = 500%Z
  /\ http_status (list_episodes sample_url_ok (Some seeded_db) None (Some true) 50)
     = 500%Z.
Proof. repeat split. Qed.

(** C10: for the empty-string [tag] the query holds no condition on
    [tags], as for no [tag]; the request on the seeded store still returns
    no episode, raising at the [async for] statement with a 500. *)
Theorem list_episodes_empty_tag_raises :
  (forall featured, episode_query (Some "") featured = episode_query None featured)
  /\ episode_query (Some "") None !! "tags" = None
  /\ list_episodes sample_url_ok (Some seeded_db) (Some "") None 50
     = Raise (TypeError "'async for' requires an object with __aiter__ method, got list")
  /\ http_status (list_episodes sample_url_ok (Some seeded_db) (Some "") None 50)
     = 500%Z.
Proof. repeat split. Qed.

Lemma list_episodes_validated_witness :
  exists err,
    list_episodes sample_url_ok (Some drifted_db) None None 50 = Raise err
    /\ http_status (@Raise (list Episode) err) = 500%Z.
Proof.
  destruct (list_episodes_validated sample_url_ok drifted_db None None 50) as (_ & _ & H).
  apply H.
  replace (selected drifted_db None None 50)
    with [({[ "title" := VStr "Untitled" ]} : doc)] by reflexivity.
  left. eexists. reflexivity.
Defined.

Lemma seed_demo_once_witness :
  exists d1,
    seed_demo (Some empty_db) = (Ok seeded_response, Some d1)
    /\ seed_demo (Some d1) = (Ok not_seeded_response, Some d1).
Proof.
  destruct (proj1 (seed_demo_once empty_db) eq_refl) as (d1 & H1 & _ & _ & H2).
  exists d1. split; [exact H1 | exact H2].
Defined.

Lemma Episode_validate_ranges_witness :
  (exists x, Episode_validate sample_url_ok
               (<["duration_minutes" := VInt 241]> romance_dawn) = Raise x)
  /\ (exists x, Episode_validate sample_url_ok (<["number" := VInt 0]> romance_dawn) = Raise x)
  /\ Episode_validate sample_url_ok (<["duration_minutes" := VInt 240]> romance_dawn)
     = Ok (mkEpisode 1 1 "Romance Dawn" None None None None (Some 240%Z) [] false).
Proof.
  split; [|split].
  - apply (proj1 (Episode_validate_ranges sample_url_ok
                    (<["duration_minutes" := VInt 241]> romance_dawn)) 241%Z);
      [reflexivity | lia].
  - destruct (Episode_validate_ranges sample_url_ok (<["number" := VInt 0]> romance_dawn))
      as (_ & H & _).
    apply (H 0%Z); [reflexivity | lia].
  - destruct (Episode_validate_ranges sample_url_ok romance_dawn) as (_ & _ & _ & H).
    destruct (H (mkEpisode 1 1 "Romance Dawn" None None None None None [] false) eq_refl)
      as (_ & _ & _ & Hd & _).
    apply (Hd 240%Z). lia.
Defined.

Lemma limit_caps_witness :
  exists docs,
    list_episodes_raw (Some seeded_db) 2 = Ok docs /\ length docs = 2.
Proof.
  destruct (limit_caps sample_url_ok seeded_db 2 ltac:(lia)) as (_ & (docs & H1 & H2 & _) & _).
  exists docs. split; [exact H1 | exact H2].
Defined.

(** At [limit = -1] one document comes back: more than the limit. *)
Lemma limit_negative_counterexample :
  exists docs,
    list_episodes_raw (Some seeded_db) (-1) = Ok docs
    /\ length docs = 1
    /\ ~ (Z.of_nat (length docs) <= -1)%Z.
Proof.
  eexists. split; [reflexivity|]. split; [vm_compute; reflexivity|].
  vm_compute. intros H. apply H. reflexivity.
Qed.

(** * Further properties on the sample data *)

Lemma collect_valid_ids_canonical_witness :
  collect_valid_ids ["0123456789ABCDEF01234567"; "0123456789abcdef01234567"] []
  = ["0123456789abcdef01234567"; "0123456789abcdef01234567"].
Proof.
  destruct (collect_valid_ids_canonical
              ["0123456789ABCDEF01234567"; "0123456789abcdef01234567"])
    as (_ & _ & _ & H).
  apply H. repeat constructor.
Defined.

Lemma Episode_validate_typed_arguments_witness :
  Episode_validate sample_url_ok arlong_park
  = Ok (mkEpisode 31 1 "Arlong Park" (Some "Nami's village.") None None None
          (Some 24%Z) ["nami"; "east blue"] true).
Proof.
  apply (proj1 (Episode_validate_typed_arguments sample_url_ok arlong_park));
    try reflexivity.
  unfold Episode_accepts, is_required, is_defaulted, is_optional. cbn.
  repeat split; first [reflexivity | left; reflexivity | right; split; reflexivity].
Defined.

Lemma User_validate_typed_arguments_witness :
  User_validate nami = Ok (mkUser "Nami" "nami@example.com" "Cocoyasi Village" (Some 20%Z) true).
Proof.
  apply (proj1 (User_validate_typed_arguments nami)).
  unfold User_accepts, is_required, is_defaulted, is_optional, in_range. cbn.
  repeat split; first [reflexivity | lia | right; split; reflexivity].
Defined.

Lemma Collection_validate_typed_arguments_witness :
  Collection_validate sample_url_ok east_blue
  = Ok (mkCollection "East Blue Saga" None ["0123456789abcdef01234567"] None).
Proof.
  apply (proj1 (Collection_validate_typed_arguments sample_url_ok east_blue));
    [|reflexivity].
  unfold Collection_accepts, is_required, is_defaulted, is_optional. cbn.
  repeat split; first [reflexivity | left; reflexivity].
Defined.

Lemma Episode_validate_ignores_extra_witness :
  Episode_validate sample_url_ok (<["id" := VStr "0123456789abcdef01234567"]> romance_dawn)
  = Episode_validate sample_url_ok romance_dawn.
Proof.
  apply (Episode_validate_ignores_extra sample_url_ok romance_dawn "id"
           (VStr "0123456789abcdef01234567")).
  intros H. unfold Episode_fields in H.
  repeat (apply elem_of_cons in H as [H|H]; [discriminate H|]).
  apply elem_of_nil in H. exact H.
Defined.

